(** * KFParticleBaseSIMD: storage layout and daughter bookkeeping

    A shallow embedding of the inline members of [class KFParticleBaseSIMD]
    (KFParticle/KFParticleBaseSIMD.h): the triangular index map [IJ], the
    covariance accessors built on it, and the daughter-id list kept in a
    [std::vector<int_v>].  Members that the header only declares have no
    counterpart here. *)

From Stdlib Require Import ZArith Lia.
From stdpp Require Import base option list.

Local Open Scope Z_scope.

(** ** C++ integer types

    [Int_t] and [int] are 32-bit two's-complement integers, [size_t] is a
    64-bit unsigned integer.  Arithmetic is done in [Z] and brought back into
    the type by [to_int] / [to_size_t] after every operation.  (Signed
    overflow is undefined in C++; the wrap is what the hardware does, and no
    statement below depends on it outside the representable range.) *)
Module CInt.

Definition INT_MAX : Z := 2 ^ 31 - 1.
Definition INT_MIN : Z := - 2 ^ 31.

Definition to_int (z : Z) : Z := (z + 2 ^ 31) mod 2 ^ 32 - 2 ^ 31.
Definition to_size_t (z : Z) : Z := z mod 2 ^ 64.

Definition in_int (z : Z) : Prop := INT_MIN <= z <= INT_MAX.

Definition add (a b : Z) : Z := to_int (a + b).
Definition mul (a b : Z) : Z := to_int (a * b).
(** [/] on integers truncates toward zero. *)
Definition div (a b : Z) : Z := to_int (Z.quot a b).

End CInt.

(** ** The triangular index map

    [static Int_t IJ( Int_t i, Int_t j )
       { return ( j<=i ) ? i*(i+1)/2+j : j*(j+1)/2+i; }] *)
Definition IJ (i j : Z) : Z :=
  if j <=? i
  then CInt.add (CInt.div (CInt.mul i (CInt.add i 1)) 2) j
  else CInt.add (CInt.div (CInt.mul j (CInt.add j 1)) 2) i.

(** The same map, read over the mathematical integers as the data-model
    paragraph of the specification writes it. *)
Definition IJ_spec (i j : Z) : Z :=
  if j <=? i then i * (i + 1) / 2 + j else j * (j + 1) / 2 + i.

(** ** C arrays

    [a[k]] on a fixed-size array: defined inside the array, no value
    outside. *)
Definition array_at {A : Type} (a : list A) (k : Z) : option A :=
  if k <? 0 then None else a !! Z.to_nat k.

(** ** [std::vector]

    The element sequence and the reserved capacity.  [max_size] is the
    implementation's limit on the number of elements. *)
Record vector (A : Type) : Type := mk_vector {
  vec_data : list A;
  vec_capacity : Z
}.
Arguments mk_vector {A} _ _.
Arguments vec_data {A} _.
Arguments vec_capacity {A} _.

Inductive exception : Type := length_error | bad_alloc.

Module Vec.
Section Ops.
Context {A : Type}.
Variable max_size : Z.

(** The allocator behind the vector: asked for room for [n] elements it
    either fails ([None], reported as [bad_alloc]) or grants room for [n]
    elements and a surplus it chooses. *)
Variable allocate : Z → option N.

(** [size()], a [size_t]. *)
Definition size (v : vector A) : Z := Z.of_nat (length (vec_data v)).

(** [operator[](size_t n)]. *)
Definition at_index (v : vector A) (n : Z) : option A :=
  array_at (vec_data v) n.

(** [reserve(n)]: throws [length_error] when [n > max_size()]; when [n] is
    beyond the capacity it asks the allocator, throws [bad_alloc] if that
    fails and otherwise has capacity at least [n]; when [n] is within the
    capacity it does nothing.  A throwing call leaves the vector as it was,
    and the elements are never touched. *)
Definition reserve (n : Z) (v : vector A) : vector A * option exception :=
  if max_size <? n then (v, Some length_error)
  else if vec_capacity v <? n then
    match allocate n with
    | Some surplus => (mk_vector (vec_data v) (n + Z.of_N surplus), None)
    | None => (v, Some bad_alloc)
    end
  else (v, None).

(** [push_back(x)]: the element goes to the end; a full vector grows its
    capacity first (by doubling, as libstdc++ does; storage is taken to be
    available). *)
Definition push_back (x : A) (v : vector A) : vector A :=
  let cap := vec_capacity v in
  mk_vector (vec_data v ++ [x])
            (if size v <? cap then cap else Z.max 1 (2 * cap)).


End Ops.
End Vec.

(** ** The particle object *)
Section Particle.

(** [float_v] and [int_v] are the lane vectors of KFParticleDef.h;
    nothing here looks inside them. *)
Context {float_v int_v : Type}.

Record KFParticleBaseSIMD : Type := mkParticle {
  fP : list float_v;             (* float_v fP[8]  *)
  fC : list float_v;             (* float_v fC[36] *)
  fQ : float_v;
  fNDF : int_v;
  fChi2 : float_v;
  fSFromDecay : float_v;
  fVtxGuess : list float_v;      (* float_v fVtxGuess[3]    *)
  fVtxErrGuess : list float_v;   (* float_v fVtxErrGuess[3] *)
  SumDaughterMass : float_v;
  fMassHypo : float_v;
  fId : int_v;
  fAtProductionVertex : bool;
  fIsVtxGuess : bool;
  fIsVtxErrGuess : bool;
  fIsLinearized : bool;
  fPDG : int_v;
  fConstructMethod : Z;
  fDaughterIds : vector int_v
}.

(** The array members have their declared sizes. *)
Definition well_formed (p : KFParticleBaseSIMD) : Prop :=
  length (fP p) = 8%nat ∧ length (fC p) = 36%nat ∧
  length (fVtxGuess p) = 3%nat ∧ length (fVtxErrGuess p) = 3%nat.

Definition with_fDaughterIds (p : KFParticleBaseSIMD) (v : vector int_v)
  : KFParticleBaseSIMD :=
  mkParticle (fP p) (fC p) (fQ p) (fNDF p) (fChi2 p) (fSFromDecay p)
             (fVtxGuess p) (fVtxErrGuess p) (SumDaughterMass p)
             (fMassHypo p) (fId p) (fAtProductionVertex p) (fIsVtxGuess p)
             (fIsVtxErrGuess p) (fIsLinearized p) (fPDG p)
             (fConstructMethod p) v.

(** *** Accessors *)

(** [float_v GetParameter ( Int_t i ) const { return fP[i]; }] *)
Definition GetParameter (p : KFParticleBaseSIMD) (i : Z) : option float_v :=
  array_at (fP p) i.

(** [float_v GetCovariance( Int_t i ) const { return fC[i]; }] *)
Definition GetCovariance1 (p : KFParticleBaseSIMD) (i : Z) : option float_v :=
  array_at (fC p) i.

(** [float_v GetCovariance( Int_t i, Int_t j ) const { return fC[IJ(i,j)]; }] *)
Definition GetCovariance (p : KFParticleBaseSIMD) (i j : Z) : option float_v :=
  array_at (fC p) (IJ i j).

(** [float_v & Covariance( Int_t i, Int_t j ) { return fC[IJ(i,j)]; }] and
    [float_v & Cij( Int_t i, Int_t j ){ return fC[IJ(i,j)]; }] return a
    reference to a slot of [fC]: the slot number, and its content. *)
Definition Covariance_slot (i j : Z) : Z := IJ i j.
Definition Covariance (p : KFParticleBaseSIMD) (i j : Z) : option float_v :=
  array_at (fC p) (Covariance_slot i j).
Definition Cij_slot (i j : Z) : Z := IJ i j.
Definition Cij (p : KFParticleBaseSIMD) (i j : Z) : option float_v :=
  array_at (fC p) (Cij_slot i j).

(** Writing through the reference: [Cij(i,j) = x]. *)
Definition set_Cij (p : KFParticleBaseSIMD) (i j : Z) (x : float_v)
  : list float_v :=
  if Cij_slot i j <? 0 then fC p else <[Z.to_nat (Cij_slot i j) := x]> (fC p).

Definition with_fC (p : KFParticleBaseSIMD) (c : list float_v)
  : KFParticleBaseSIMD :=
  mkParticle (fP p) c (fQ p) (fNDF p) (fChi2 p) (fSFromDecay p)
             (fVtxGuess p) (fVtxErrGuess p) (SumDaughterMass p)
             (fMassHypo p) (fId p) (fAtProductionVertex p) (fIsVtxGuess p)
             (fIsVtxErrGuess p) (fIsLinearized p) (fPDG p)
             (fConstructMethod p) (fDaughterIds p).

(** *** Daughter bookkeeping *)

(** [int_v Id() const { return fId; }] *)
Definition Id (p : KFParticleBaseSIMD) : int_v := fId p.

(** [int NDaughters() const { return fDaughterIds.size(); }]: the
    [size_t] is narrowed to [int]. *)
Definition NDaughters (p : KFParticleBaseSIMD) : Z :=
  CInt.to_int (Vec.size (fDaughterIds p)).

(** [std::vector<int_v> & DaughterIds() { return fDaughterIds; }] *)
Definition DaughterIds (p : KFParticleBaseSIMD) : vector int_v :=
  fDaughterIds p.

(** [int_v GetDaughterId(int iD) const { return fDaughterIds[iD]; }]: the
    [int] index is converted to [size_t]. *)
Definition GetDaughterId (p : KFParticleBaseSIMD) (iD : Z) : option int_v :=
  Vec.at_index (fDaughterIds p) (CInt.to_size_t iD).

(** [void SetNDaughters( int n ) { fDaughterIds.reserve(n); }]: the object
    after the call, and the exception when [reserve] throws. *)
Definition SetNDaughters (max_size : Z) (allocate : Z → option N)
  (p : KFParticleBaseSIMD) (n : Z)
  : KFParticleBaseSIMD * option exception :=
  let r := Vec.reserve max_size allocate (CInt.to_size_t n) (fDaughterIds p) in
  (with_fDaughterIds p r.1, r.2).

(** [void AddDaughterId( int_v id ){ fDaughterIds.push_back(id); }] *)
Definition AddDaughterId (p : KFParticleBaseSIMD) (id : int_v)
  : KFParticleBaseSIMD :=
  with_fDaughterIds p (Vec.push_back id (fDaughterIds p)).


End Particle.
Arguments KFParticleBaseSIMD : clear implicits.

(** * Sample objects

    One-lane instances ([float_v] and [int_v] read as integers) on which the
    statements below are exercised. *)
Module Sample.

Definition particle (id : Z) (ids : list Z) : KFParticleBaseSIMD Z Z :=
  mkParticle (replicate 8 0) (seqZ 0 36) 1 (-3) 0 0 [0; 0; 0] [1; 1; 1]
             0 (-1) id false false false false 211 0 (mk_vector ids 4).

Definition mother : KFParticleBaseSIMD Z Z := particle 7 [11; 12].
Definition pion : KFParticleBaseSIMD Z Z := particle 13 [].

(** Allocators: one that grants exactly what is asked (as libstdc++'s
    [reserve] ends up with), one that grants more, one that is exhausted. *)
Definition exact_allocator : Z → option N := λ _, Some 0%N.
Definition generous_allocator : Z → option N := λ n, Some (Z.to_N n).
Definition exhausted_allocator : Z → option N := λ _, None.

End Sample.

(** * Writing through the reference accessors

    [Parameter(i)], [Covariance(i)], [Covariance(i,j)] and [Cij(i,j)] return
    a reference into [fP] or [fC]; an assignment through it stores into that
    slot. *)

(** [a[k] = x] on a fixed-size array: defined inside the array, not
    outside. *)
Definition array_store {A : Type} (a : list A) (k : Z) (x : A)
  : option (list A) :=
  if (0 <=? k) && (k <? Z.of_nat (length a))
  then Some (<[Z.to_nat k := x]> a) else None.

Section References.
Context {float_v int_v : Type}.
Implicit Types p : KFParticleBaseSIMD float_v int_v.

Definition with_fP p (v : list float_v) : KFParticleBaseSIMD float_v int_v :=
  mkParticle v (fC p) (fQ p) (fNDF p) (fChi2 p) (fSFromDecay p)
             (fVtxGuess p) (fVtxErrGuess p) (SumDaughterMass p)
             (fMassHypo p) (fId p) (fAtProductionVertex p) (fIsVtxGuess p)
             (fIsVtxErrGuess p) (fIsLinearized p) (fPDG p)
             (fConstructMethod p) (fDaughterIds p).

(** [Parameter(i) = x], with
    [float_v & Parameter ( Int_t i ) { return fP[i]; }] *)
Definition assign_Parameter p (i : Z) (x : float_v)
  : option (KFParticleBaseSIMD float_v int_v) :=
  with_fP p <$> array_store (fP p) i x.

(** [Covariance(i) = x], with
    [float_v & Covariance( Int_t i ) { return fC[i]; }] *)
Definition assign_Covariance1 p (k : Z) (x : float_v)
  : option (KFParticleBaseSIMD float_v int_v) :=
  with_fC p <$> array_store (fC p) k x.

(** [Covariance(i,j) = x] and [Cij(i,j) = x], with
    [float_v & Covariance( Int_t i, Int_t j ) { return fC[IJ(i,j)]; }] *)
Definition assign_Covariance p (i j : Z) (x : float_v)
  : option (KFParticleBaseSIMD float_v int_v) :=
  with_fC p <$> array_store (fC p) (IJ i j) x.

End References.

(** The index pairs of the lower triangle of an 8x8 matrix, row by row. *)
Definition lower_triangle : list (Z * Z) :=
  i ← seqZ 0 8; (λ j, (i, j)) <$> seqZ 0 (i + 1).

(** The largest index for which [i*(i+1)] still fits an [Int_t]. *)
Definition IJ_index_max : Z := 46340.

(** * Properties of the index map *)

Lemma to_int_small z : CInt.in_int z → CInt.to_int z = z.
Proof.
  unfold CInt.in_int, CInt.INT_MIN, CInt.INT_MAX, CInt.to_int. intros H.
  rewrite Z.mod_small; lia.
Qed.

(** [IJ] does not care about the order of its arguments, whatever they are. *)
Lemma IJ_comm i j : IJ i j = IJ j i.
Proof.
  unfold IJ.
  destruct (Z.leb_spec j i) as [Hji|Hji], (Z.leb_spec i j) as [Hij|Hij];
    try reflexivity; try lia.
  by replace j with i by lia.
Qed.

(** On the indices of an 8x8 matrix nothing overflows, and [IJ] is the
    triangular number formula. *)
Lemma IJ_is_spec i j :
  0 <= i <= 7 → 0 <= j <= 7 → IJ i j = IJ_spec i j.
Proof.
  intros Hi Hj.
  assert (Hc : ∀ a b, 0 <= a <= 7 → 0 <= b <= 7 →
    CInt.add (CInt.div (CInt.mul a (CInt.add a 1)) 2) b = a * (a + 1) / 2 + b).
  { intros a b Ha Hb.
    assert (Hprod : 0 <= a * (a + 1) <= 56) by nia.
    assert (Hhalf : 0 <= a * (a + 1) / 2 <= 28).
    { split; [apply Z.div_pos; lia | apply Z.div_le_upper_bound; lia]. }
    unfold CInt.add, CInt.div, CInt.mul.
    rewrite (to_int_small (a + 1)) by (unfold CInt.in_int, CInt.INT_MIN, CInt.INT_MAX; lia).
    rewrite (to_int_small (a * (a + 1))) by (unfold CInt.in_int, CInt.INT_MIN, CInt.INT_MAX; lia).
    rewrite Z.quot_div_nonneg by lia.
    rewrite (to_int_small (a * (a + 1) / 2)) by (unfold CInt.in_int, CInt.INT_MIN, CInt.INT_MAX; lia).
    apply to_int_small. unfold CInt.in_int, CInt.INT_MIN, CInt.INT_MAX; lia. }
  unfold IJ, IJ_spec. destruct (j <=? i); by apply Hc.
Qed.

Lemma IJ_spec_range i j :
  0 <= i <= 7 → 0 <= j <= 7 → 0 <= IJ_spec i j <= 35.
Proof.
  intros Hi Hj. unfold IJ_spec.
  assert (Ht : ∀ a, 0 <= a <= 7 → 0 <= a * (a + 1) / 2 ∧ a * (a + 1) / 2 + a <= 35).
  { intros a Ha.
    assert (a = 0 ∨ a = 1 ∨ a = 2 ∨ a = 3 ∨ a = 4 ∨ a = 5 ∨ a = 6 ∨ a = 7)
      as Hcase by lia.
    destruct Hcase as [->|[->|[->|[->|[->|[->|[->| ->]]]]]]]; by vm_compute. }
  destruct (Z.leb_spec j i).
  - destruct (Ht i Hi). lia.
  - destruct (Ht j Hj). lia.
Qed.

Lemma array_at_in_range {A} (a : list A) k :
  0 <= k < Z.of_nat (length a) → is_Some (array_at a k).
Proof.
  intros Hk. unfold array_at.
  destruct (Z.ltb_spec k 0); [lia|].
  apply lookup_lt_is_Some. lia.
Qed.

(** * Symmetry and bounds of the covariance storage *)

Section Covariance.
Context {float_v int_v : Type}.
Implicit Types p : KFParticleBaseSIMD float_v int_v.

Lemma IJ_range i j : 0 <= i <= 7 → 0 <= j <= 7 → 0 <= IJ i j <= 35.
Proof. intros Hi Hj. rewrite IJ_is_spec by done. by apply IJ_spec_range. Qed.

(** A value stored through [Cij(i,j)] is the one read back at the
    transposed position. *)
Lemma Cij_write_read_transposed p i j x :
  well_formed p → 0 <= i <= 7 → 0 <= j <= 7 →
  GetCovariance (with_fC p (set_Cij p i j x)) j i = Some x.
Proof.
  intros (_ & Hlen & _) Hi Hj.
  pose proof (IJ_range i j Hi Hj) as Hr.
  unfold GetCovariance, set_Cij, Cij_slot, array_at. cbn.
  rewrite (IJ_comm j i).
  destruct (Z.ltb_spec (IJ i j) 0); [lia|].
  apply list_lookup_insert_eq. lia.
Qed.

(** C4: the covariance matrix read through [GetCovariance] is symmetric in
    every particle state: for indices [0 <= i, j <= 7] both
    [GetCovariance(i,j)] and [GetCovariance(j,i)] read [fC[IJ(i,j)]], where
    [IJ(i,j)] is [j<=i ? i*(i+1)/2+j : j*(j+1)/2+i] and [IJ(i,j) = IJ(j,i)]. *)
Theorem GetCovariance_symmetric p i j :
  0 <= i <= 7 → 0 <= j <= 7 →
  IJ i j = (if j <=? i then i * (i + 1) / 2 + j else j * (j + 1) / 2 + i) ∧
  IJ i j = IJ j i ∧
  GetCovariance p i j = array_at (fC p) (IJ i j) ∧
  GetCovariance p j i = array_at (fC p) (IJ i j) ∧
  GetCovariance p i j = GetCovariance p j i.
Proof.
  intros Hi Hj. split_and!.
  - by apply IJ_is_spec.
  - apply IJ_comm.
  - reflexivity.
  - unfold GetCovariance. by rewrite (IJ_comm j i).
  - unfold GetCovariance. by rewrite (IJ_comm j i).
Qed.

(** C9: for indices [0 <= i, j <= 7] the slot [IJ(i,j)] lies in [0..35], so
    [GetCovariance(i,j)], [Covariance(i,j)] and [Cij(i,j)] all address an
    existing element of the 36-entry array [fC]. *)
Theorem IJ_within_fC i j :
  0 <= i <= 7 → 0 <= j <= 7 →
  0 <= IJ i j <= 35 ∧
  ∀ p, length (fC p) = 36%nat →
    is_Some (GetCovariance p i j) ∧
    is_Some (Covariance p i j) ∧
    is_Some (Cij p i j).
Proof.
  intros Hi Hj. pose proof (IJ_range i j Hi Hj) as Hr.
  split; [done|]. intros p Hlen.
  unfold GetCovariance, Covariance, Cij, Covariance_slot, Cij_slot.
  assert (is_Some (array_at (fC p) (IJ i j))) as Hs
    by (apply array_at_in_range; lia).
  done.
Qed.

End Covariance.

(** * The daughter-id list *)

Section DaughterList.
Context {float_v int_v : Type}.
Implicit Types p m d : KFParticleBaseSIMD float_v int_v.

Lemma with_fDaughterIds_same p : with_fDaughterIds p (fDaughterIds p) = p.
Proof. by destruct p. Qed.

Lemma reserve_data {A} max_size allocate n (v : vector A) :
  vec_data (Vec.reserve max_size allocate n v).1 = vec_data v.
Proof. unfold Vec.reserve. by repeat case_match. Qed.

(** What [reserve] does to the capacity when it returns normally: at least
    what was asked and what there was, exactly that when the allocator
    grants no surplus, and no change when there was room already. *)
Lemma reserve_capacity {A} max_size allocate n (v : vector A) :
  (Vec.reserve max_size allocate n v).2 = None →
  Z.max (vec_capacity v) n <= vec_capacity (Vec.reserve max_size allocate n v).1 ∧
  (allocate n = Some 0%N →
   vec_capacity (Vec.reserve max_size allocate n v).1 = Z.max (vec_capacity v) n) ∧
  (n <= vec_capacity v → (Vec.reserve max_size allocate n v).1 = v).
Proof.
  unfold Vec.reserve.
  destruct (Z.ltb_spec max_size n); [done|].
  destruct (Z.ltb_spec (vec_capacity v) n).
  - destruct (allocate n) as [surplus|]; [|done]. cbn. intros _.
    split_and!; [lia| |lia]. intros [= ->]. lia.
  - cbn. intros _. split_and!; [lia|intros _; lia|done].
Qed.

(** A throwing [reserve] leaves the vector as it was. *)
Lemma reserve_throws {A} max_size allocate n (v : vector A) e :
  (Vec.reserve max_size allocate n v).2 = Some e →
  (Vec.reserve max_size allocate n v).1 = v.
Proof.
  unfold Vec.reserve.
  destruct (max_size <? n); [done|].
  destruct (vec_capacity v <? n); [|done].
  by destruct (allocate n).
Qed.

(** The capacity never shrinks. *)
Lemma reserve_grows {A} max_size allocate n (v : vector A) :
  vec_capacity v <= vec_capacity (Vec.reserve max_size allocate n v).1.
Proof.
  unfold Vec.reserve.
  destruct (max_size <? n); [done|].
  destruct (Z.ltb_spec (vec_capacity v) n); [|done].
  destruct (allocate n); cbn; lia.
Qed.



Lemma AddDaughterId_data p id :
  vec_data (DaughterIds (AddDaughterId p id)) = vec_data (DaughterIds p) ++ [id].
Proof. reflexivity. Qed.

(** With fewer than [INT_MAX] ids stored, the narrowing in [NDaughters]
    loses nothing. *)
Lemma NDaughters_exact p :
  Vec.size (DaughterIds p) <= CInt.INT_MAX →
  NDaughters p = Vec.size (DaughterIds p).
Proof.
  intros H. unfold NDaughters. apply to_int_small.
  unfold CInt.in_int, CInt.INT_MIN, DaughterIds, Vec.size in *. lia.
Qed.


(** C10: [SetNDaughters(n)] reserves capacity and nothing more: for every
    [n], whatever the allocator does, [NDaughters()] and every
    [GetDaughterId(iD)] give after the call what they gave before it, the
    stored ids are the same sequence, and no other member differs; it does
    not set the number of daughters.  When the call returns normally the
    capacity is at least the larger of the old one and [n], and exactly
    that when the allocator grants no surplus. *)
Theorem SetNDaughters_keeps_daughter_list
  (max_size : Z) (allocate : Z → option N) p (n : Z) :
  let p' := (SetNDaughters max_size allocate p n).1 in
  NDaughters p' = NDaughters p ∧
  (∀ iD, GetDaughterId p' iD = GetDaughterId p iD) ∧
  vec_data (DaughterIds p') = vec_data (DaughterIds p) ∧
  with_fDaughterIds p' (DaughterIds p) = p ∧
  ((SetNDaughters max_size allocate p n).2 = None →
     Z.max (vec_capacity (DaughterIds p)) (CInt.to_size_t n)
       <= vec_capacity (DaughterIds p') ∧
     (allocate (CInt.to_size_t n) = Some 0%N →
      vec_capacity (DaughterIds p')
      = Z.max (vec_capacity (DaughterIds p)) (CInt.to_size_t n))).
Proof.
  cbn zeta.
  assert ((SetNDaughters max_size allocate p n).2 = None →
     Z.max (vec_capacity (DaughterIds p)) (CInt.to_size_t n)
       <= vec_capacity (DaughterIds (SetNDaughters max_size allocate p n).1) ∧
     (allocate (CInt.to_size_t n) = Some 0%N →
      vec_capacity (DaughterIds (SetNDaughters max_size allocate p n).1)
      = Z.max (vec_capacity (DaughterIds p)) (CInt.to_size_t n))) as Hcap.
  { cbn. intros Hok.
    destruct (reserve_capacity max_size allocate (CInt.to_size_t n)
                (fDaughterIds p) Hok) as (Hle & Hexact & _).
    by split. }
  revert Hcap. unfold SetNDaughters. cbn [fst snd]. intros Hcap.
  assert (vec_data (fDaughterIds
            (with_fDaughterIds p
               (Vec.reserve max_size allocate (CInt.to_size_t n)
                            (fDaughterIds p)).1))
          = vec_data (fDaughterIds p)) as Hdata
    by (cbn; apply reserve_data).
  split_and!.
  - unfold NDaughters, Vec.size. by rewrite Hdata.
  - intros iD. unfold GetDaughterId, Vec.at_index. by rewrite Hdata.
  - exact Hdata.
  - by destruct p.
  - exact Hcap.
Qed.

End DaughterList.

(** Reserving room for five daughters on a particle that has none leaves it
    with none, whether the allocator grants the five places, more, or
    fails. *)
Example SetNDaughters_is_no_setter :
  NDaughters (SetNDaughters (2 ^ 59) Sample.exact_allocator Sample.pion 5).1 = 0 ∧
  vec_capacity (DaughterIds
    (SetNDaughters (2 ^ 59) Sample.exact_allocator Sample.pion 5).1) = 5 ∧
  NDaughters (SetNDaughters (2 ^ 59) Sample.generous_allocator Sample.pion 5).1 = 0 ∧
  vec_capacity (DaughterIds
    (SetNDaughters (2 ^ 59) Sample.generous_allocator Sample.pion 5).1) = 10 ∧
  SetNDaughters (2 ^ 59) Sample.exhausted_allocator Sample.pion 5
    = (Sample.pion, Some bad_alloc).
Proof. by vm_compute. Qed.

(** A negative [n] becomes a [size_t] beyond [max_size]: [reserve] throws
    and the particle is the one it was. *)
Example SetNDaughters_negative :
  SetNDaughters (2 ^ 59) Sample.exact_allocator Sample.mother (-1)
    = (Sample.mother, Some length_error).
Proof. by vm_compute. Qed.

(** * The statements on the sample objects *)

Example IJ_table :
  map (λ i, map (IJ i) (seqZ 0 8)) (seqZ 0 8) =
  [ [ 0;  1;  3;  6; 10; 15; 21; 28];
    [ 1;  2;  4;  7; 11; 16; 22; 29];
    [ 3;  4;  5;  8; 12; 17; 23; 30];
    [ 6;  7;  8;  9; 13; 18; 24; 31];
    [10; 11; 12; 13; 14; 19; 25; 32];
    [15; 16; 17; 18; 19; 20; 26; 33];
    [21; 22; 23; 24; 25; 26; 27; 34];
    [28; 29; 30; 31; 32; 33; 34; 35] ].
Proof. by vm_compute. Qed.

Lemma GetCovariance_symmetric_witness :
  0 <= 5 <= 7 ∧ 0 <= 2 <= 7 ∧
  IJ 5 2 = 17 ∧
  GetCovariance Sample.mother 5 2 = GetCovariance Sample.mother 2 5.
Proof.
  split; [lia|]. split; [lia|].
  destruct (GetCovariance_symmetric Sample.mother 5 2) as (Hij & _ & _ & _ & Hsym);
    [lia|lia|].
  split; [exact Hij | exact Hsym].
Defined.

Lemma IJ_within_fC_witness :
  0 <= 7 <= 7 ∧ 0 <= 3 <= 7 ∧
  0 <= IJ 7 3 <= 35 ∧
  is_Some (GetCovariance Sample.mother 7 3).
Proof.
  split; [lia|]. split; [lia|].
  destruct (IJ_within_fC (float_v := Z) (int_v := Z) 7 3) as (Hr & Hacc);
    [lia|lia|].
  split; [exact Hr|].
  destruct (Hacc Sample.mother) as (Hget & _); [reflexivity | exact Hget].
Defined.

(** * The packed layout of the lower triangle *)

Lemma triangular_double i : 2 * (i * (i + 1) / 2) = i * (i + 1).
Proof.
  destruct (Z.Even_or_Odd i) as [[q ->]|[q ->]].
  - replace (2 * q * (2 * q + 1)) with (q * (2 * q + 1) * 2) by lia.
    rewrite Z.div_mul by lia. lia.
  - replace ((2 * q + 1) * (2 * q + 1 + 1)) with ((2 * q + 1) * (q + 1) * 2)
      by lia.
    rewrite Z.div_mul by lia. lia.
Qed.

(** Up to [IJ_index_max] no intermediate result leaves [Int_t]. *)
Lemma IJ_no_overflow i j :
  0 <= i <= IJ_index_max → 0 <= j <= IJ_index_max → IJ i j = IJ_spec i j.
Proof.
  unfold IJ_index_max. intros Hi Hj.
  assert (Hc : ∀ a b, 0 <= a <= 46340 → 0 <= b <= 46340 →
    CInt.add (CInt.div (CInt.mul a (CInt.add a 1)) 2) b = a * (a + 1) / 2 + b).
  { intros a b Ha Hb.
    assert (Hprod : 0 <= a * (a + 1) <= 2147441940) by nia.
    pose proof (triangular_double a) as Hdbl.
    unfold CInt.add, CInt.div, CInt.mul.
    rewrite (to_int_small (a + 1))
      by (unfold CInt.in_int, CInt.INT_MIN, CInt.INT_MAX; lia).
    rewrite (to_int_small (a * (a + 1)))
      by (unfold CInt.in_int, CInt.INT_MIN, CInt.INT_MAX; lia).
    rewrite Z.quot_div_nonneg by lia.
    rewrite (to_int_small (a * (a + 1) / 2))
      by (unfold CInt.in_int, CInt.INT_MIN, CInt.INT_MAX; lia).
    apply to_int_small. unfold CInt.in_int, CInt.INT_MIN, CInt.INT_MAX; lia. }
  unfold IJ, IJ_spec. destruct (j <=? i); by apply Hc.
Qed.

(** Between a row and any later row there is room for the whole row. *)
Lemma triangular_gap i i' :
  0 <= i → i < i' → i * (i + 1) / 2 + i < i' * (i' + 1) / 2.
Proof.
  intros Hi Hlt.
  pose proof (triangular_double i). pose proof (triangular_double i').
  nia.
Qed.

Lemma IJ_spec_lower i j : j <= i → IJ_spec i j = i * (i + 1) / 2 + j.
Proof. intros H. unfold IJ_spec. by destruct (Z.leb_spec j i); [|lia]. Qed.

Lemma IJ_spec_upper i j : i < j → IJ_spec i j = j * (j + 1) / 2 + i.
Proof. intros H. unfold IJ_spec. by destruct (Z.leb_spec j i); [lia|]. Qed.

Lemma IJ_spec_lower_inj i j i' j' :
  0 <= j <= i → 0 <= j' <= i' →
  i * (i + 1) / 2 + j = i' * (i' + 1) / 2 + j' → i = i' ∧ j = j'.
Proof.
  intros Hj Hj' Heq.
  destruct (Z.lt_trichotomy i i') as [Hlt|[->|Hgt]].
  - pose proof (triangular_gap i i'). lia.
  - lia.
  - pose proof (triangular_gap i' i). lia.
Qed.

(** X1: two index pairs share a slot of the covariance array exactly when
    they are the same pair or each other's transpose, for all non-negative
    indices up to [IJ_index_max]. *)
Theorem IJ_shared_slot i j i' j' :
  0 <= i <= IJ_index_max → 0 <= j <= IJ_index_max →
  0 <= i' <= IJ_index_max → 0 <= j' <= IJ_index_max →
  IJ i j = IJ i' j' ↔ (i = i' ∧ j = j') ∨ (i = j' ∧ j = i').
Proof.
  intros Hi Hj Hi' Hj'. split.
  - rewrite !IJ_no_overflow by done. intros Heq.
    destruct (Z.le_gt_cases j i) as [Hji|Hji],
             (Z.le_gt_cases j' i') as [Hji'|Hji'].
    + rewrite !IJ_spec_lower in Heq by done.
      apply IJ_spec_lower_inj in Heq; [|lia..]. left. lia.
    + rewrite IJ_spec_lower, IJ_spec_upper in Heq by done.
      apply IJ_spec_lower_inj in Heq; [|lia..]. right. lia.
    + rewrite IJ_spec_upper, IJ_spec_lower in Heq by done.
      apply IJ_spec_lower_inj in Heq; [|lia..]. right. lia.
    + rewrite !IJ_spec_upper in Heq by done.
      apply IJ_spec_lower_inj in Heq; [|lia..]. left. lia.
  - intros [[-> ->]|[-> ->]]; [done|apply IJ_comm].
Qed.

Lemma IJ_shared_slot_witness :
  0 <= 6 <= IJ_index_max ∧ 0 <= 1 <= IJ_index_max ∧
  0 <= 1 <= IJ_index_max ∧ 0 <= 6 <= IJ_index_max ∧
  (IJ 6 1 = IJ 1 6 ↔ (6 = 1 ∧ 1 = 6) ∨ (6 = 6 ∧ 1 = 1)).
Proof.
  assert (0 <= 6 <= IJ_index_max) as H6 by (unfold IJ_index_max; lia).
  assert (0 <= 1 <= IJ_index_max) as H1 by (unfold IJ_index_max; lia).
  split; [exact H6|]. split; [exact H1|]. split; [exact H1|]. split; [exact H6|].
  exact (IJ_shared_slot 6 1 1 6 H6 H1 H1 H6).
Defined.

Lemma lower_triangle_spec i j :
  (i, j) ∈ lower_triangle ↔ 0 <= j ∧ j <= i ∧ i <= 7.
Proof.
  unfold lower_triangle. rewrite list_elem_of_bind. split.
  - intros (i0 & Hin & Hi0). apply elem_of_seqZ in Hi0.
    apply list_elem_of_fmap in Hin as (j0 & Heq & Hj0).
    apply elem_of_seqZ in Hj0. simplify_eq. lia.
  - intros (Hj & Hji & Hi). exists i. split.
    + apply list_elem_of_fmap. exists j. split; [done|].
      apply elem_of_seqZ. lia.
    + apply elem_of_seqZ. lia.
Qed.

(** X2: the lower triangle fills the array: every slot [0..35] of [fC] is
    [IJ(i,j)] for one and only one pair [0 <= j <= i <= 7]. *)
Theorem IJ_fills_fC k :
  0 <= k <= 35 →
  ∃ i j, (0 <= j ∧ j <= i ∧ i <= 7) ∧ IJ i j = k ∧
         ∀ i' j', 0 <= j' ∧ j' <= i' ∧ i' <= 7 → IJ i' j' = k →
                  i' = i ∧ j' = j.
Proof.
  intros Hk.
  assert (k ∈ (λ ij, IJ ij.1 ij.2) <$> lower_triangle) as Hin.
  { replace ((λ ij, IJ ij.1 ij.2) <$> lower_triangle) with (seqZ 0 36)
      by (by vm_compute).
    apply elem_of_seqZ. lia. }
  apply list_elem_of_fmap in Hin as ([i j] & -> & Hij).
  apply lower_triangle_spec in Hij.
  exists i, j. split_and!; [lia..|done|].
  intros i' j' Hij' Heq. cbn [fst snd] in Heq.
  apply IJ_shared_slot in Heq; unfold IJ_index_max; lia.
Qed.

Lemma IJ_fills_fC_witness :
  0 <= 23 <= 35 ∧
  ∃ i j, (0 <= j ∧ j <= i ∧ i <= 7) ∧ IJ i j = 23 ∧
         ∀ i' j', 0 <= j' ∧ j' <= i' ∧ i' <= 7 → IJ i' j' = 23 →
                  i' = i ∧ j' = j.
Proof.
  assert (0 <= 23 <= 35) as H by lia.
  split; [exact H|]. exact (IJ_fills_fC 23 H).
Defined.

(** X3: the lower triangle is stored row by row without gaps: within a row
    the next column is the next slot, the first entry of the next row follows
    the diagonal entry, and so the slots are ordered as the pairs [(i,j)],
    [j <= i], are ordered by row and then by column. *)
Theorem IJ_row_major i j i' j' :
  0 <= j ∧ j <= i ∧ i <= IJ_index_max →
  0 <= j' ∧ j' <= i' ∧ i' <= IJ_index_max →
  (j < i → IJ i (j + 1) = IJ i j + 1) ∧
  (i < IJ_index_max → IJ (i + 1) 0 = IJ i i + 1) ∧
  (IJ i j < IJ i' j' ↔ i < i' ∨ (i = i' ∧ j < j')).
Proof.
  intros Hij Hij'. unfold IJ_index_max in *. split_and!.
  - intros Hlt.
    rewrite !IJ_no_overflow by (unfold IJ_index_max; lia).
    rewrite !IJ_spec_lower by lia. lia.
  - intros Hlt.
    rewrite !IJ_no_overflow by (unfold IJ_index_max; lia).
    rewrite !IJ_spec_lower by lia.
    pose proof (triangular_double i). pose proof (triangular_double (i + 1)).
    nia.
  - rewrite !IJ_no_overflow by (unfold IJ_index_max; lia).
    rewrite !IJ_spec_lower by lia.
    destruct (Z.lt_trichotomy i i') as [Hlt|[->|Hgt]].
    + pose proof (triangular_gap i i'). lia.
    + lia.
    + pose proof (triangular_gap i' i). lia.
Qed.

Lemma IJ_row_major_witness :
  (0 <= 2 ∧ 2 <= 4 ∧ 4 <= IJ_index_max) ∧
  (0 <= 0 ∧ 0 <= 5 ∧ 5 <= IJ_index_max) ∧
  (2 < 4 → IJ 4 (2 + 1) = IJ 4 2 + 1) ∧
  (4 < IJ_index_max → IJ (4 + 1) 0 = IJ 4 4 + 1) ∧
  (IJ 4 2 < IJ 5 0 ↔ 4 < 5 ∨ (4 = 5 ∧ 2 < 0)).
Proof.
  assert (0 <= 2 ∧ 2 <= 4 ∧ 4 <= IJ_index_max) as H1
    by (unfold IJ_index_max; lia).
  assert (0 <= 0 ∧ 0 <= 5 ∧ 5 <= IJ_index_max) as H2
    by (unfold IJ_index_max; lia).
  split; [exact H1|]. split; [exact H2|].
  exact (IJ_row_major 4 2 5 0 H1 H2).
Defined.

(** * Bounds of the array accessors *)

Lemma array_at_is_Some {A} (a : list A) k :
  is_Some (array_at a k) ↔ 0 <= k < Z.of_nat (length a).
Proof.
  unfold array_at. destruct (Z.ltb_spec k 0).
  - split; [by intros [? ?]|lia].
  - rewrite lookup_lt_is_Some. lia.
Qed.

Lemma array_store_is_Some {A} (a : list A) k x :
  is_Some (array_store a k x) ↔ 0 <= k < Z.of_nat (length a).
Proof.
  unfold array_store.
  destruct (Z.leb_spec 0 k), (Z.ltb_spec k (Z.of_nat (length a))); cbn;
    (split; [intros [? ?]; (done || lia) | intros; (done || lia)]).
Qed.

Lemma array_store_Some {A} (a a' : list A) k x :
  array_store a k x = Some a' →
  0 <= k < Z.of_nat (length a) ∧ a' = <[Z.to_nat k := x]> a.
Proof.
  unfold array_store.
  destruct (Z.leb_spec 0 k), (Z.ltb_spec k (Z.of_nat (length a))); cbn;
    intros ?; simplify_eq. split; [lia|done].
Qed.

(** A store followed by a load: the stored value at the same slot, the old
    value at any other. *)
Lemma array_store_load {A} (a a' : list A) k x k' :
  array_store a k x = Some a' →
  array_at a' k' = if decide (k' = k) then Some x else array_at a k'.
Proof.
  intros (Hk & ->)%array_store_Some. unfold array_at.
  case_decide as Hkk.
  - subst k'. destruct (Z.ltb_spec k 0); [lia|].
    apply list_lookup_insert_eq. lia.
  - destruct (Z.ltb_spec k' 0); [done|].
    apply list_lookup_insert_ne. lia.
Qed.

Section ArrayAccess.
Context {float_v int_v : Type}.
Implicit Types p : KFParticleBaseSIMD float_v int_v.

(** X4: the index range [0..7] is exact: for non-negative indices up to
    [IJ_index_max], [IJ(i,j)] is non-negative and is at most 35 exactly when
    both indices are at most 7; with the 36-entry [fC], [GetCovariance(i,j)]
    reads an element of the array and [Covariance(i,j) = x] stores into one
    exactly then, and is outside the array otherwise. *)
Theorem GetCovariance_in_bounds_iff p i j :
  0 <= i <= IJ_index_max → 0 <= j <= IJ_index_max →
  length (fC p) = 36%nat →
  0 <= IJ i j ∧
  (IJ i j <= 35 ↔ i <= 7 ∧ j <= 7) ∧
  (is_Some (GetCovariance p i j) ↔ i <= 7 ∧ j <= 7) ∧
  (∀ x, is_Some (assign_Covariance p i j x) ↔ i <= 7 ∧ j <= 7).
Proof.
  intros Hi Hj Hlen.
  assert (0 <= IJ i j ∧ (IJ i j <= 35 ↔ i <= 7 ∧ j <= 7)) as [Hpos Hiff].
  { rewrite IJ_no_overflow by done. unfold IJ_index_max in *.
    destruct (Z.le_gt_cases j i).
    - rewrite IJ_spec_lower by done.
      pose proof (triangular_double i). split; [nia|].
      split; [intros H35|intros [H7 _]]; nia.
    - rewrite IJ_spec_upper by done.
      pose proof (triangular_double j). split; [nia|].
      split; [intros H35|intros [_ H7]]; nia. }
  split_and!; [done..| |].
  - unfold GetCovariance. rewrite array_at_is_Some, Hlen. lia.
  - intros x. unfold assign_Covariance. rewrite fmap_is_Some.
    rewrite array_store_is_Some, Hlen. lia.
Qed.

(** X5: an assignment through [Covariance(i,j)] (or [Cij(i,j)]), for
    [0 <= i, j <= 7] on a 36-entry [fC], is read back by [GetCovariance] at
    [(i,j)] and at [(j,i)], leaves every other matrix entry as it was, keeps
    [fC] at 36 entries and changes no other member. *)
Theorem assign_Covariance_read_back p i j x :
  0 <= i <= 7 → 0 <= j <= 7 → length (fC p) = 36%nat →
  ∃ p', assign_Covariance p i j x = Some p' ∧
        GetCovariance p' i j = Some x ∧
        GetCovariance p' j i = Some x ∧
        (∀ k l, 0 <= k <= 7 → 0 <= l <= 7 →
                ¬ ((k = i ∧ l = j) ∨ (k = j ∧ l = i)) →
                GetCovariance p' k l = GetCovariance p k l) ∧
        length (fC p') = 36%nat ∧
        with_fC p' (fC p) = p.
Proof.
  intros Hi Hj Hlen.
  pose proof (IJ_range i j Hi Hj) as Hr.
  destruct (proj2 (array_store_is_Some (fC p) (IJ i j) x)) as [c Hc]; [lia|].
  exists (with_fC p c).
  pose proof (array_store_load _ _ _ _ (IJ i j) Hc) as Hsame.
  rewrite decide_True in Hsame by done.
  split_and!.
  - unfold assign_Covariance. by rewrite Hc.
  - exact Hsame.
  - unfold GetCovariance. rewrite (IJ_comm j i). exact Hsame.
  - intros k l Hk Hl Hother. unfold GetCovariance. cbn [fC with_fC].
    rewrite (array_store_load _ _ _ _ (IJ k l) Hc).
    rewrite decide_False; [done|].
    intros Heq. apply Hother. apply IJ_shared_slot in Heq;
      unfold IJ_index_max; lia.
  - apply array_store_Some in Hc as (_ & ->). cbn. by rewrite length_insert.
  - by destruct p.
Qed.

(** X6: with the 8-entry [fP], [GetParameter(i)] reads and
    [Parameter(i) = x] stores inside the array exactly for [0 <= i <= 7];
    a stored value is read back at [i], every other parameter and every
    other member is as before. *)
Theorem assign_Parameter_read_back p i x :
  length (fP p) = 8%nat →
  (is_Some (GetParameter p i) ↔ 0 <= i <= 7) ∧
  (is_Some (assign_Parameter p i x) ↔ 0 <= i <= 7) ∧
  ∀ p', assign_Parameter p i x = Some p' →
        GetParameter p' i = Some x ∧
        (∀ k, k ≠ i → GetParameter p' k = GetParameter p k) ∧
        length (fP p') = 8%nat ∧
        with_fP p' (fP p) = p.
Proof.
  intros Hlen. split_and!.
  - unfold GetParameter. rewrite array_at_is_Some, Hlen. lia.
  - unfold assign_Parameter. rewrite fmap_is_Some, array_store_is_Some, Hlen.
    lia.
  - unfold assign_Parameter. intros p' Hp'.
    destruct (array_store (fP p) i x) as [v|] eqn:Hv; [|done].
    cbn in Hp'. simplify_eq. split_and!.
    + unfold GetParameter. cbn [fP with_fP].
      rewrite (array_store_load _ _ _ _ i Hv). by rewrite decide_True.
    + intros k Hk. unfold GetParameter. cbn [fP with_fP].
      rewrite (array_store_load _ _ _ _ k Hv). by rewrite decide_False.
    + apply array_store_Some in Hv as (_ & ->). cbn.
      by rewrite length_insert.
    + by destruct p.
Qed.

End ArrayAccess.

Lemma GetCovariance_in_bounds_iff_witness :
  0 <= 8 <= IJ_index_max ∧ 0 <= 0 <= IJ_index_max ∧
  length (fC Sample.mother) = 36%nat ∧
  IJ 8 0 = 36 ∧
  ¬ is_Some (GetCovariance Sample.mother 8 0).
Proof.
  assert (0 <= 8 <= IJ_index_max) as H8 by (unfold IJ_index_max; lia).
  assert (0 <= 0 <= IJ_index_max) as H0 by (unfold IJ_index_max; lia).
  split; [exact H8|]. split; [exact H0|]. split; [reflexivity|].
  split; [reflexivity|].
  destruct (GetCovariance_in_bounds_iff Sample.mother 8 0 H8 H0 eq_refl)
    as (_ & _ & Hget & _).
  intros Hsome. apply Hget in Hsome. lia.
Defined.

Lemma assign_Covariance_read_back_witness :
  0 <= 5 <= 7 ∧ 0 <= 2 <= 7 ∧ length (fC Sample.mother) = 36%nat ∧
  ∃ p', assign_Covariance Sample.mother 5 2 99 = Some p' ∧
        GetCovariance p' 2 5 = Some 99.
Proof.
  split; [lia|]. split; [lia|]. split; [reflexivity|].
  destruct (assign_Covariance_read_back Sample.mother 5 2 99)
    as (p' & Hp' & _ & Hread & _); [lia|lia|reflexivity|].
  exists p'. split; [exact Hp' | exact Hread].
Defined.

Lemma assign_Parameter_read_back_witness :
  length (fP Sample.mother) = 8%nat ∧
  is_Some (assign_Parameter Sample.mother 6 42) ∧
  ¬ is_Some (GetParameter Sample.mother 8).
Proof.
  split; [reflexivity|].
  destruct (assign_Parameter_read_back Sample.mother 6 42 eq_refl)
    as (_ & Hstore & _).
  destruct (assign_Parameter_read_back Sample.mother 8 42 eq_refl)
    as (Hget & _).
  split; [apply Hstore; lia | intros H; apply Hget in H; lia].
Defined.

(** * The daughter-id list through sequences of calls *)

Lemma to_int_exact_iff z : CInt.to_int z = z ↔ CInt.in_int z.
Proof.
  split; [|apply to_int_small].
  unfold CInt.to_int, CInt.in_int, CInt.INT_MIN, CInt.INT_MAX. intros H.
  pose proof (Z.mod_pos_bound (z + 2 ^ 31) (2 ^ 32)). lia.
Qed.

Lemma to_size_t_negative z :
  - 2 ^ 64 <= z < 0 → CInt.to_size_t z = z + 2 ^ 64.
Proof.
  intros Hz. unfold CInt.to_size_t.
  rewrite <- (Z.mod_add z 1 (2 ^ 64)) by lia.
  rewrite Z.mod_small; lia.
Qed.



Section DaughterSequences.
Context {float_v int_v : Type}.
Implicit Types p : KFParticleBaseSIMD float_v int_v.




(** X9: [GetDaughterId(iD)], for an [int] index and a list whose length fits
    an [int], reads a stored id exactly when [0 <= iD < NDaughters()]; a
    negative index, turned into a [size_t], is always beyond the end. *)
Theorem GetDaughterId_in_bounds_iff p iD :
  CInt.in_int iD → Vec.size (DaughterIds p) <= CInt.INT_MAX →
  is_Some (GetDaughterId p iD) ↔ 0 <= iD < NDaughters p.
Proof.
  intros HiD Hfit. rewrite (NDaughters_exact p) by done.
  unfold CInt.in_int, CInt.INT_MIN, CInt.INT_MAX in *.
  unfold GetDaughterId, Vec.at_index. rewrite array_at_is_Some.
  unfold Vec.size, DaughterIds in *.
  destruct (Z.lt_ge_cases iD 0) as [Hneg|Hnn].
  - rewrite to_size_t_negative by lia. lia.
  - unfold CInt.to_size_t. rewrite Z.mod_small by lia. lia.
Qed.


(** X11: on a platform whose [max_size()] lies between [INT_MAX] and
    [2^64 - 2^31], [SetNDaughters(n)] throws [length_error] exactly for
    negative [n]; it throws [bad_alloc] exactly when [n] is beyond the
    capacity and the allocator fails; a throwing call leaves the particle
    untouched.  With [0 <= n] within the capacity the call does nothing and
    cannot throw; a call that returns has capacity at least
    [max(old capacity, n)].  The capacity never shrinks. *)
Theorem SetNDaughters_throws_iff_negative max_size allocate p n :
  CInt.in_int n → CInt.INT_MAX <= max_size < 2 ^ 64 - 2 ^ 31 →
  let r := SetNDaughters max_size allocate p n in
  (r.2 = Some length_error ↔ n < 0) ∧
  (r.2 = Some bad_alloc
   ↔ 0 <= n ∧ vec_capacity (DaughterIds p) < n ∧ allocate n = None) ∧
  (r.2 ≠ None → r.1 = p) ∧
  (0 <= n <= vec_capacity (DaughterIds p) → r = (p, None)) ∧
  (r.2 = None →
     0 <= n ∧ Z.max (vec_capacity (DaughterIds p)) n
              <= vec_capacity (DaughterIds r.1)) ∧
  vec_capacity (DaughterIds p) <= vec_capacity (DaughterIds r.1).
Proof.
  intros Hn Hmax r. unfold CInt.in_int, CInt.INT_MIN, CInt.INT_MAX in *.
  assert (with_fDaughterIds p (fDaughterIds p) = p) as Hsame by (by destruct p).
  unfold r, SetNDaughters, Vec.reserve, DaughterIds. cbn [fst snd].
  destruct (Z.lt_ge_cases n 0) as [Hneg|Hnn].
  - rewrite to_size_t_negative by lia.
    destruct (Z.ltb_spec max_size (n + 2 ^ 64)); [|lia].
    cbn. rewrite Hsame.
    split_and!; [done|split; [done|lia]|done|lia|done|lia].
  - unfold CInt.to_size_t. rewrite Z.mod_small by lia.
    destruct (Z.ltb_spec max_size n); [lia|].
    destruct (Z.ltb_spec (vec_capacity (fDaughterIds p)) n).
    + destruct (allocate n) as [surplus|]; cbn; rewrite ?Hsame.
      * split_and!; [split; [done|lia]|split; [done|intros (_ & _ & ?); done]
                     |done|lia|intros _; lia|lia].
      * split_and!; [split; [done|lia]|done|done|lia|done|lia].
    + cbn. rewrite Hsame.
      split_and!; [split; [done|lia]|split; [done|lia]|done|done
                   |intros _; lia|lia].
Qed.

(** X12: [NDaughters()] is the number of stored ids exactly when that
    number fits an [int]; the returned value is an [int] in any case. *)
Theorem NDaughters_exact_iff p :
  (NDaughters p = Vec.size (DaughterIds p)
   ↔ Vec.size (DaughterIds p) <= CInt.INT_MAX) ∧
  CInt.in_int (NDaughters p).
Proof.
  split.
  - unfold NDaughters, DaughterIds. rewrite to_int_exact_iff.
    unfold CInt.in_int, CInt.INT_MIN, Vec.size. lia.
  - unfold NDaughters, CInt.to_int, CInt.in_int, CInt.INT_MIN, CInt.INT_MAX.
    pose proof (Z.mod_pos_bound (Vec.size (fDaughterIds p) + 2 ^ 31) (2 ^ 32)).
    lia.
Qed.

End DaughterSequences.


Lemma GetDaughterId_in_bounds_iff_witness :
  CInt.in_int (-1) ∧ Vec.size (DaughterIds Sample.mother) <= CInt.INT_MAX ∧
  ¬ is_Some (GetDaughterId Sample.mother (-1)) ∧
  is_Some (GetDaughterId Sample.mother 1).
Proof.
  assert (CInt.in_int (-1)) as Hm1 by (by vm_compute).
  assert (CInt.in_int 1) as H1 by (by vm_compute).
  assert (Vec.size (DaughterIds Sample.mother) <= CInt.INT_MAX) as Hfit
    by (by vm_compute).
  split; [exact Hm1|]. split; [exact Hfit|]. split.
  - intros H. apply (GetDaughterId_in_bounds_iff Sample.mother (-1) Hm1 Hfit) in H.
    lia.
  - apply (GetDaughterId_in_bounds_iff Sample.mother 1 H1 Hfit).
    by vm_compute.
Defined.


Lemma SetNDaughters_throws_iff_negative_witness :
  CInt.in_int (-4) ∧ CInt.INT_MAX <= 2 ^ 59 < 2 ^ 64 - 2 ^ 31 ∧
  (SetNDaughters (2 ^ 59) Sample.exact_allocator Sample.mother (-4)).2
    = Some length_error ∧
  (SetNDaughters (2 ^ 59) Sample.exact_allocator Sample.mother (-4)).1
    = Sample.mother.
Proof.
  assert (CInt.in_int (-4)) as Hn by (by vm_compute).
  assert (CInt.INT_MAX <= 2 ^ 59 < 2 ^ 64 - 2 ^ 31) as Hmax by (by vm_compute).
  split; [exact Hn|]. split; [exact Hmax|].
  destruct (SetNDaughters_throws_iff_negative (2 ^ 59) Sample.exact_allocator
              Sample.mother (-4) Hn Hmax) as (Hthrow & _ & Hsame & _).
  assert ((SetNDaughters (2 ^ 59) Sample.exact_allocator Sample.mother (-4)).2
          = Some length_error) as Hexn by (apply Hthrow; lia).
  split; [exact Hexn|]. apply Hsame. by rewrite Hexn.
Defined.
